(** * Aurora C runtime (src/runtime/c_runtime.c)

    The runtime is six one-statement wrappers over the host C library:
    [aurora_println], [aurora_print], [aurora_alloc], [aurora_free],
    [aurora_realloc] and [aurora_panic].  The development has two layers.

    - The wrappers themselves are embedded as small programs over an
      interface of host calls ([printf], [fprintf], [malloc], [free],
      [realloc], [abort]).  A program is run against any host semantics.
    - The host C library is given a reference semantics over an explicit
      process state (the two standard streams, the heap, the at-exit
      handlers), following ISO C.  What ISO C leaves to the implementation
      is a field of the [host] record. *)

From Stdlib Require Import ZArith NArith Strings.Byte Strings.String DecimalString Lia.
From Stdlib Require DecimalPos DecimalZ.
From stdpp Require Import base option list gmap.

Set Implicit Arguments.

(** ** Bytes, C strings and pointers *)

Definition NUL : byte := x00.
Definition LF : byte := x0a.

(** The bytes of a string literal. *)
Definition lit (s : string) : list byte := list_byte_of_string s.

(** A [const char*] argument: the null pointer, or a pointer to the bytes
    that are readable from it onwards. *)
Definition cstr : Type := option (list byte).

(** The string a buffer holds: its bytes up to the first NUL.  A buffer
    without a terminator is not a C string (reading it runs off the end). *)
Fixpoint c_string (buf : list byte) : option (list byte) :=
  match buf with
  | [] => None
  | b :: rest =>
      if Byte.eqb b NUL then Some []
      else match c_string rest with
           | Some s => Some (b :: s)
           | None => None
           end
  end.

(** Heap pointers ([void*]) are addresses; [size_t] is an unsigned word.
    The wrappers do no arithmetic on either, so no wrap-around arises. *)
Abbreviation voidptr := N.
Definition NULL : voidptr := 0%N.

(** ** Formatted output *)

Inductive arg : Type :=
| AStr (s : cstr)
| AInt (n : Z).

(** [%d]: signed decimal, ["-"] for negatives, no padding. *)
Definition conv_d (n : Z) : list byte :=
  list_byte_of_string (NilZero.string_of_int (Z.to_int n)).

(** [%s]: the bytes of the string.  ISO C does not define the conversion
    of a null pointer; [null_text] is what the host prints for it, if
    anything. *)
Definition conv_s (null_text : option (list byte)) (s : cstr) : option (list byte) :=
  match s with
  | Some buf => c_string buf
  | None => null_text
  end.

(** The directives the runtime's format strings use: [%s], [%d], [%%].
    [None] stands for undefined behaviour (unknown directive, missing or
    ill-typed argument, invalid string). *)
Fixpoint format (null_text : option (list byte)) (fmt : list byte) (args : list arg)
  : option (list byte) :=
  match fmt with
  | [] => Some []
  | c :: rest =>
      if Byte.eqb c "%" then
        match rest with
        | [] => None
        | d :: rest' =>
            if Byte.eqb d "s" then
              match args with
              | AStr s :: args' =>
                  match conv_s null_text s, format null_text rest' args' with
                  | Some out, Some tl => Some (out ++ tl)
                  | _, _ => None
                  end
              | _ => None
              end
            else if Byte.eqb d "d" then
              match args with
              | AInt n :: args' =>
                  match format null_text rest' args' with
                  | Some tl => Some (conv_d n ++ tl)
                  | None => None
                  end
              | _ => None
              end
            else if Byte.eqb d "%" then
              match format null_text rest' args with
              | Some tl => Some (d :: tl)
              | None => None
              end
            else None
        end
      else
        match format null_text rest args with
        | Some tl => Some (c :: tl)
        | None => None
        end
  end.

(** ** Host calls and programs over them *)

Inductive stream : Type := Stdout | Stderr.

Inductive hostcall : Type -> Type :=
| Printf (fmt : list byte) (args : list arg) : hostcall Z
| Fprintf (f : stream) (fmt : list byte) (args : list arg) : hostcall Z
| Malloc (size : N) : hostcall voidptr
| Free (p : voidptr) : hostcall unit
| Realloc (p : voidptr) (size : N) : hostcall voidptr
| Abort : hostcall Empty_set
| Exit (status : Z) : hostcall Empty_set.

(** A C function body: it returns a value, or makes a host call and goes on
    with the answer. *)
Inductive prog (A : Type) : Type :=
| Ret (a : A)
| Call (X : Type) (c : hostcall X) (k : X -> prog A).

Arguments Ret {A} a.
Arguments Call {A X} c k.

Fixpoint bind {A B : Type} (p : prog A) (f : A -> prog B) : prog B :=
  match p with
  | Ret a => f a
  | Call c k => Call c (fun x => bind (k x) f)
  end.

Definition call {X : Type} (c : hostcall X) : prog X := Call c Ret.

Declare Scope prog_scope.
Delimit Scope prog_scope with prog.
Notation "x <- p ;; q" := (bind p (fun x => q))
  (at level 100, p at next level, right associativity) : prog_scope.
Notation "p ;; q" := (bind p (fun _ => q))
  (at level 100, right associativity) : prog_scope.
Open Scope prog_scope.

(** How a call ends: it returns to the caller, the process terminates, or
    the behaviour is undefined. *)
Inductive termination : Type :=
| Exited (status : Z)
| Signaled (sig : Z).

Inductive outcome (W A : Type) : Type :=
| Returned (a : A) (w : W)
| Terminated (t : termination) (w : W)
| Undefined.

Arguments Returned {W A} a w.
Arguments Terminated {W A} t w.
Arguments Undefined {W A}.

(** A host: the meaning of every host call on a process state [W]. *)
Definition hostsem (W : Type) : Type := forall X : Type, hostcall X -> W -> outcome W X.

Fixpoint run {W A : Type} (h : hostsem W) (p : prog A) (w : W) : outcome W A :=
  match p with
  | Ret a => Returned a w
  | Call c k =>
      match h _ c w with
      | Returned x w' => run h (k x) w'
      | Terminated t w' => Terminated t w'
      | Undefined => Undefined
      end
  end.

(** ** The runtime (c_runtime.c) *)

(** The three format strings of the source; the escape [\n] is the byte
    0x0A. *)
Definition fmt_println : list byte := lit "%s" ++ [LF].
Definition fmt_print : list byte := lit "%s".
Definition fmt_panic : list byte := lit "Aurora panic at %s:%d: %s" ++ [LF].

Definition aurora_println (str : cstr) : prog unit :=
  match str with
  | Some _ => call (Printf fmt_println [AStr str]) ;; Ret tt
  | None => Ret tt
  end.

Definition aurora_print (str : cstr) : prog unit :=
  match str with
  | Some _ => call (Printf fmt_print [AStr str]) ;; Ret tt
  | None => Ret tt
  end.

Definition aurora_alloc (size : N) : prog voidptr :=
  call (Malloc size).

Definition aurora_free (ptr : voidptr) : prog unit :=
  call (Free ptr).

Definition aurora_realloc (ptr : voidptr) (size : N) : prog voidptr :=
  call (Realloc ptr size).

Definition aurora_panic (msg file : cstr) (line : Z) : prog unit :=
  call (Fprintf Stderr fmt_panic [AStr file; AInt line; AStr msg]) ;;
  call Abort ;;
  Ret tt.

(** ** The process state the host calls act on *)

(** A heap block is its bytes; a byte that was never written is
    indeterminate ([None]).  The heap maps the base address of every live
    block to the block. *)
Abbreviation block := (list (option byte)).
Abbreviation heap := (gmap N (list (option byte))).

Record world : Type := World {
  w_stdout : list byte;     (* bytes written to standard output so far *)
  w_stderr : list byte;     (* bytes written to standard error so far *)
  w_heap : heap;
  w_atexit : list nat;      (* handlers registered with atexit, latest first *)
  w_hooks_run : list nat    (* handlers that have been run *)
}.

Definition put (f : stream) (out : list byte) (w : world) : world :=
  match f with
  | Stdout => World (w_stdout w ++ out) (w_stderr w) (w_heap w) (w_atexit w) (w_hooks_run w)
  | Stderr => World (w_stdout w) (w_stderr w ++ out) (w_heap w) (w_atexit w) (w_hooks_run w)
  end.

Definition set_heap (hp : heap) (w : world) : world :=
  World (w_stdout w) (w_stderr w) hp (w_atexit w) (w_hooks_run w).

Definition run_hooks (w : world) : world :=
  World (w_stdout w) (w_stderr w) (w_heap w) [] (w_hooks_run w ++ w_atexit w).

(** ** Reference semantics of the host C library *)

(** What ISO C leaves to the implementation. *)
Record host : Type := Host {
  (* text printed for a null [%s] argument; [None]: undefined *)
  h_null_text : option (list byte);
  (* alignment of every block the allocator returns *)
  h_align : N;
  (* where the allocator puts a new block of the given size in the given
     heap; [None]: the request fails *)
  h_place : heap -> N -> option N;
  (* whether [realloc (p, 0)] frees [p] and returns null *)
  h_realloc0_frees : bool
}.

(** The allocator's side of the ISO C contract: a new block is non-null,
    aligned, and overlaps no live block. *)
Record host_ok (H : host) : Prop := HostOk {
  ok_align : (0 < h_align H)%N;
  ok_nonnull : forall hp n a, h_place H hp n = Some a -> a <> NULL;
  ok_aligned : forall hp n a, h_place H hp n = Some a -> (a mod h_align H = 0)%N;
  ok_fresh : forall hp n a, h_place H hp n = Some a -> hp !! a = None;
  ok_disjoint : forall (hp : heap) n a b blk,
      h_place H hp n = Some a -> hp !! b = Some blk ->
      (a + n <= b \/ b + N.of_nat (length blk) <= a)%N
}.

Definition SIGABRT : Z := 6.

Definition fresh_block (n : N) : block := replicate (N.to_nat n) None.

(** The first [min (old size) n] bytes are kept, the rest is indeterminate. *)
Definition resize (n : N) (old : block) : block :=
  take (N.to_nat n) old ++ replicate (N.to_nat n - length old) None.

Definition host_fprintf (H : host) (f : stream) (fmt : list byte) (args : list arg)
    (w : world) : outcome world Z :=
  match format (h_null_text H) fmt args with
  | Some out => Returned (Z.of_nat (length out)) (put f out w)
  | None => Undefined
  end.

Definition host_malloc (H : host) (n : N) (w : world) : outcome world voidptr :=
  match h_place H (w_heap w) n with
  | Some a => Returned a (set_heap (<[a := fresh_block n]> (w_heap w)) w)
  | None => Returned NULL w
  end.

Definition host_free (p : voidptr) (w : world) : outcome world unit :=
  if N.eqb p NULL then Returned tt w
  else match w_heap w !! p with
       | Some _ => Returned tt (set_heap (delete p (w_heap w)) w)
       | None => Undefined
       end.

Definition host_realloc (H : host) (p : voidptr) (n : N) (w : world) : outcome world voidptr :=
  if N.eqb p NULL then host_malloc H n w
  else match w_heap w !! p with
       | Some old =>
           if N.eqb n 0 && h_realloc0_frees H
           then Returned NULL (set_heap (delete p (w_heap w)) w)
           else match h_place H (delete p (w_heap w)) n with
                | Some a =>
                    Returned a (set_heap (<[a := resize n old]> (delete p (w_heap w))) w)
                | None => Returned NULL w
                end
       | None => Undefined
       end.

(** [abort] raises SIGABRT and runs no at-exit handler; [exit] runs them
    all, latest registered first. *)
Definition host_abort (w : world) : outcome world Empty_set :=
  Terminated (Signaled SIGABRT) w.

Definition host_exit (status : Z) (w : world) : outcome world Empty_set :=
  Terminated (Exited status) (run_hooks w).

Definition libc (H : host) : hostsem world :=
  fun X c =>
    match c in hostcall X return world -> outcome world X with
    | Printf fmt args => host_fprintf H Stdout fmt args
    | Fprintf f fmt args => host_fprintf H f fmt args
    | Malloc n => host_malloc H n
    | Free p => host_free p
    | Realloc p n => host_realloc H p n
    | Abort => host_abort
    | Exit status => host_exit status
    end.

(** ** What the caller does with a block *)

(** Write [bs] at offset [off] of the block at [p]; read [n] bytes from
    there.  Both are undefined ([None]) outside a live block, and a read of
    an indeterminate byte is. *)
Definition store_bytes (p : voidptr) (off : nat) (bs : list byte) (hp : heap) : option heap :=
  match hp !! p with
  | Some blk =>
      if decide (off + length bs <= length blk)
      then Some (<[p := take off blk ++ (Some <$> bs) ++ drop (off + length bs) blk]> hp)
      else None
  | None => None
  end.

Definition load_bytes (p : voidptr) (off n : nat) (hp : heap) : option (list byte) :=
  match hp !! p with
  | Some blk =>
      if decide (off + n <= length blk)
      then mapM id (take n (drop off blk))
      else None
  | None => None
  end.

(** One step of the compiled program between two reads of a block. *)
Inductive op : Type :=
| OStore (p : voidptr) (off : nat) (bs : list byte)
| OAlloc (n : N)
| OFree (p : voidptr)
| ORealloc (p : voidptr) (n : N)
| OPrint (s : cstr)
| OPrintln (s : cstr).

Definition after {A : Type} (o : outcome world A) : option world :=
  match o with
  | Returned _ w => Some w
  | _ => None
  end.

Definition do_op (H : host) (o : op) (w : world) : option world :=
  match o with
  | OStore p off bs =>
      match store_bytes p off bs (w_heap w) with
      | Some hp => Some (set_heap hp w)
      | None => None
      end
  | OAlloc n => after (run (libc H) (aurora_alloc n) w)
  | OFree p => after (run (libc H) (aurora_free p) w)
  | ORealloc p n => after (run (libc H) (aurora_realloc p n) w)
  | OPrint s => after (run (libc H) (aurora_print s) w)
  | OPrintln s => after (run (libc H) (aurora_println s) w)
  end.

Fixpoint do_ops (H : host) (os : list op) (w : world) : option world :=
  match os with
  | [] => Some w
  | o :: os' =>
      match do_op H o w with
      | Some w' => do_ops H os' w'
      | None => None
      end
  end.

(** Whether a step frees, reallocates or overwrites the block at [p]. *)
Definition targets (p : voidptr) (o : op) : bool :=
  match o with
  | OStore q _ _ | OFree q | ORealloc q _ => N.eqb q p
  | _ => false
  end.

(** ** A concrete host *)

(** A bump allocator over an arena of [limit] bytes: a new block goes at
    the first multiple of [align] above every live block. *)
Definition heap_top (hp : heap) : N :=
  map_fold (fun b (blk : block) acc => N.max acc (b + N.of_nat (length blk))) 0%N hp.

Definition bump_place (align limit : N) (hp : heap) (n : N) : option N :=
  let a := (align * (heap_top hp / align + 1))%N in
  if decide (a + n <= limit)%N then Some a else None.

(** A host in the style of the common C libraries: a null [%s] argument
    prints as [(null)], blocks are 16-byte aligned, [realloc (p, 0)] frees. *)
Definition common_host : host :=
  Host (Some (lit "(null)")) 16 (bump_place 16 65536) true.

(** A host that returns null for a zero size, gives a null [%s] argument no
    meaning and keeps the block on [realloc (p, 0)]. *)
Definition frugal_host : host :=
  Host None 8
       (fun hp n => if N.eqb n 0 then None else bump_place 8 4096 hp n)
       false.

(** Process states for the examples: a fresh process; one with some output
    behind it; one with a 4-byte block holding ["test"]. *)
Definition world0 : world := World [] [] ∅ [] [].

Definition world_hi : world := World (lit "hi") (lit "err") ∅ [] [].

Definition world_test : world :=
  World [] [] {[ 16%N := Some <$> lit "test" ]} [] [].

Definition bytes_00_0F : list byte :=
  [x00; x01; x02; x03; x04; x05; x06; x07; x08; x09; x0a; x0b; x0c; x0d; x0e; x0f].

(** ** Notions the statements use *)

(** The block at [p] is live and starts with the bytes [bs]. *)
Definition holds (p : voidptr) (bs : list byte) (hp : heap) : Prop :=
  exists blk, hp !! p = Some blk /\ take (length bs) blk = Some <$> bs.

(** Channels: the part of the process state a host call acts on. *)
Inductive channel : Type := ChStdout | ChStderr | ChHeap | ChProcess.

Definition channel_of {X : Type} (c : hostcall X) : channel :=
  match c with
  | Printf _ _ => ChStdout
  | Fprintf Stdout _ _ => ChStdout
  | Fprintf Stderr _ _ => ChStderr
  | Malloc _ | Free _ | Realloc _ _ => ChHeap
  | Abort | Exit _ => ChProcess
  end.

(** Every host call the program can make is on one of the channels [chs]. *)
Inductive confined {A : Type} (chs : list channel) : prog A -> Prop :=
| confined_ret (a : A) : confined chs (Ret a)
| confined_call (X : Type) (c : hostcall X) (k : X -> prog A) :
    In (channel_of c) chs ->
    (forall x, confined chs (k x)) ->
    confined chs (Call c k).

(** The state a call leaves behind, however it ends. *)
Definition final {A : Type} (o : outcome world A) : option world :=
  match o with
  | Returned _ w | Terminated _ w => Some w
  | Undefined => None
  end.

Definition ends {A : Type} (o : outcome world A) : bool :=
  match o with
  | Terminated _ _ => true
  | _ => false
  end.

(** What a program confined to [chs] leaves alone. *)
Definition untouched (chs : list channel) (w w' : world) : Prop :=
  (~ In ChStdout chs -> w_stdout w' = w_stdout w)
  /\ (~ In ChStderr chs -> w_stderr w' = w_stderr w)
  /\ (~ In ChHeap chs -> w_heap w' = w_heap w)
  /\ (~ In ChProcess chs -> w_atexit w' = w_atexit w /\ w_hooks_run w' = w_hooks_run w).

(** What one step of the program appends to standard output. *)
Definition op_output (o : op) : list byte :=
  match o with
  | OPrint (Some buf) =>
      match c_string buf with
      | Some s => s
      | None => []
      end
  | OPrintln (Some buf) =>
      match c_string buf with
      | Some s => s ++ [LF]
      | None => []
      end
  | _ => []
  end.

Definition ops_output (os : list op) : list byte :=
  concat (map op_output os).

(** A well-formed heap: every live block has a non-null, aligned base, and
    no two live blocks overlap. *)
Definition heap_wf (H : host) (hp : heap) : Prop :=
  (forall b blk, hp !! b = Some blk -> b <> NULL /\ (b mod h_align H = 0)%N)
  /\ (forall b1 b2 blk1 blk2, b1 <> b2 ->
        hp !! b1 = Some blk1 -> hp !! b2 = Some blk2 ->
        (b1 + N.of_nat (length blk1) <= b2 \/ b2 + N.of_nat (length blk2) <= b1)%N).

(** The one-character string ["\n"]. *)
Definition newline : cstr := Some [LF; NUL].

(** Reading a signed decimal back, the inverse of the [%d] conversion. *)
Definition read_d (bs : list byte) : option Z :=
  match NilZero.int_of_string (string_of_list_byte bs) with
  | Some d => Some (Z.of_int d)
  | None => None
  end.

(** * Properties *)

(** ** Running programs, strings and the three format strings *)

Lemma run_bind {W A B : Type} (h : hostsem W) (p : prog A) (f : A -> prog B) (w : W) :
  run h (bind p f) w =
  match run h p w with
  | Returned a w' => run h (f a) w'
  | Terminated t w' => Terminated t w'
  | Undefined => Undefined
  end.
Proof.
  revert w. induction p as [a | X c k IH]; intros w; simpl.
  - reflexivity.
  - destruct (h X c w) as [x w' | t w' |]; auto.
Qed.

Lemma run_call {W X : Type} (h : hostsem W) (c : hostcall X) (w : W) :
  run h (call c) w = h X c w.
Proof. unfold call. simpl. destruct (h X c w); reflexivity. Qed.

Lemma c_string_app (s rest : list byte) :
  Forall (fun b => b <> NUL) s -> c_string (s ++ NUL :: rest) = Some s.
Proof.
  induction 1 as [| b s Hb _ IH]; simpl.
  - reflexivity.
  - destruct (Byte.eqb b NUL) eqn:E.
    + apply byte_dec_bl in E. contradiction.
    + rewrite IH. reflexivity.
Qed.

Lemma c_string_inv (buf s : list byte) :
  c_string buf = Some s ->
  Forall (fun b => b <> NUL) s /\ exists rest, buf = s ++ NUL :: rest.
Proof.
  revert s. induction buf as [| b buf IH]; intros s; simpl; [discriminate |].
  destruct (Byte.eqb b NUL) eqn:E.
  - intros [= <-]. apply byte_dec_bl in E. subst b. split; [constructor | by exists buf].
  - destruct (c_string buf) as [s' |]; [| discriminate].
    intros [= <-]. destruct (IH s' eq_refl) as [Hs [rest ->]].
    split; [| by exists rest].
    constructor; [by apply eqb_false | done].
Qed.

Lemma format_println nt (str : cstr) :
  format nt fmt_println [AStr str] =
  match conv_s nt str with Some s => Some (s ++ [LF]) | None => None end.
Proof. cbn. destruct (conv_s nt str); reflexivity. Qed.

Lemma format_print nt (str : cstr) :
  format nt fmt_print [AStr str] =
  match conv_s nt str with Some s => Some s | None => None end.
Proof. cbn. destruct (conv_s nt str); [rewrite app_nil_r|]; reflexivity. Qed.

Lemma format_panic nt (msg file : cstr) (line : Z) :
  format nt fmt_panic [AStr file; AInt line; AStr msg] =
  match conv_s nt file, conv_s nt msg with
  | Some f, Some m =>
      Some (lit "Aurora panic at " ++ f ++ lit ":" ++ conv_d line ++ lit ": " ++ m ++ [LF])
  | _, _ => None
  end.
Proof.
  cbn -[conv_d]. destruct (conv_s nt file), (conv_s nt msg); reflexivity.
Qed.

Lemma run_println (H : host) (str : cstr) (w : world) :
  run (libc H) (aurora_println str) w =
  match str with
  | None => Returned tt w
  | Some buf =>
      match c_string buf with
      | Some s => Returned tt (put Stdout (s ++ [LF]) w)
      | None => Undefined
      end
  end.
Proof.
  destruct str as [buf |]; [| reflexivity].
  unfold aurora_println. rewrite run_bind, run_call. simpl. unfold host_fprintf.
  rewrite format_println. simpl. destruct (c_string buf); reflexivity.
Qed.

Lemma run_print (H : host) (str : cstr) (w : world) :
  run (libc H) (aurora_print str) w =
  match str with
  | None => Returned tt w
  | Some buf =>
      match c_string buf with
      | Some s => Returned tt (put Stdout s w)
      | None => Undefined
      end
  end.
Proof.
  destruct str as [buf |]; [| reflexivity].
  unfold aurora_print. rewrite run_bind, run_call. simpl. unfold host_fprintf.
  rewrite format_print. simpl. destruct (c_string buf); reflexivity.
Qed.

Lemma run_panic (H : host) (msg file : cstr) (line : Z) (w : world) :
  run (libc H) (aurora_panic msg file line) w =
  match conv_s (h_null_text H) file, conv_s (h_null_text H) msg with
  | Some f, Some m =>
      Terminated (Signaled SIGABRT)
        (put Stderr (lit "Aurora panic at " ++ f ++ lit ":" ++ conv_d line
                       ++ lit ": " ++ m ++ [LF]) w)
  | _, _ => Undefined
  end.
Proof.
  unfold aurora_panic. rewrite run_bind, run_call. simpl. unfold host_fprintf.
  rewrite format_panic.
  destruct (conv_s (h_null_text H) file), (conv_s (h_null_text H) msg); reflexivity.
Qed.

Example conv_d_42 : conv_d 42 = lit "42".
Proof. reflexivity. Qed.

Example conv_d_neg : conv_d (-7) = lit "-7".
Proof. reflexivity. Qed.

Example conv_d_zero : conv_d 0 = lit "0".
Proof. reflexivity. Qed.

Example conv_d_int_min : conv_d (- 2 ^ 31) = lit "-2147483648".
Proof. reflexivity. Qed.

(** ** Output primitives *)

(** C3.  For a non-null argument that points to the string [s],
    [aurora_println] appends the bytes of [s] and one 0x0A byte to standard
    output and [aurora_print] appends the bytes of [s]; standard error and
    the rest of the process state stay as they were, and the call returns. *)
Theorem print_appends_string (H : host) (w : world) (buf s : list byte) :
  c_string buf = Some s ->
  run (libc H) (aurora_println (Some buf)) w =
    Returned tt (World (w_stdout w ++ s ++ [LF]) (w_stderr w) (w_heap w)
                       (w_atexit w) (w_hooks_run w))
  /\ run (libc H) (aurora_print (Some buf)) w =
    Returned tt (World (w_stdout w ++ s) (w_stderr w) (w_heap w)
                       (w_atexit w) (w_hooks_run w)).
Proof.
  intros Hs. rewrite run_println, run_print, Hs. split; reflexivity.
Qed.

(** Scenario A: [println "hello"] on a fresh process. *)
Lemma print_appends_string_witness :
  c_string (lit "hello" ++ [NUL]) = Some (lit "hello")
  /\ run (libc common_host) (aurora_println (Some (lit "hello" ++ [NUL]))) world0 =
       Returned tt (World (lit "hello" ++ [LF]) [] ∅ [] [])
  /\ run (libc common_host) (aurora_print (Some (lit "hello" ++ [NUL]))) world0 =
       Returned tt (World (lit "hello") [] ∅ [] []).
Proof.
  split; [reflexivity |].
  apply (@print_appends_string common_host world0 (lit "hello" ++ [NUL]) (lit "hello")).
  reflexivity.
Defined.

(** Scenario B: [print "ab"] then [println "cd"] leaves ["abcd\n"] on
    standard output. *)
Example scenario_B :
  run (libc common_host)
      (aurora_print (Some (lit "ab" ++ [NUL])) ;; aurora_println (Some (lit "cd" ++ [NUL])))
      world0
  = Returned tt (World (lit "abcd" ++ [LF]) [] ∅ [] []).
Proof. reflexivity. Qed.

(** C4.  With a null argument neither output primitive makes any host call:
    whatever the host and the process state, the call returns and the state
    is unchanged. *)
Theorem print_null_noop (W : Type) (h : hostsem W) (w : W) :
  run h (aurora_println None) w = Returned tt w
  /\ run h (aurora_print None) w = Returned tt w
  /\ aurora_println None = Ret tt
  /\ aurora_print None = Ret tt.
Proof. repeat split. Qed.

(** Scenario F: [println] of the null pointer on the reference host. *)
Example scenario_F :
  run (libc common_host) (aurora_println None) world_hi = Returned tt world_hi.
Proof. reflexivity. Qed.

(** ** Abnormal termination *)

(** C1.  For a message and a file name that are C strings and any line,
    [aurora_panic] appends exactly
    ["Aurora panic at <file>:<line>: <message>\n"] to standard error and the
    process then ends on SIGABRT: the call does not return, the outcome is
    no [exit] status, no at-exit handler has run, and standard output and
    the heap are untouched. *)
Theorem panic_aborts (H : host) (w : world) (mbuf fbuf msg file : list byte) (line : Z) :
  c_string mbuf = Some msg ->
  c_string fbuf = Some file ->
  run (libc H) (aurora_panic (Some mbuf) (Some fbuf) line) w =
    Terminated (Signaled SIGABRT)
      (World (w_stdout w)
             (w_stderr w ++ lit "Aurora panic at " ++ file ++ lit ":" ++ conv_d line
                        ++ lit ": " ++ msg ++ [LF])
             (w_heap w) (w_atexit w) (w_hooks_run w))
  /\ (forall a w', run (libc H) (aurora_panic (Some mbuf) (Some fbuf) line) w
                   <> Returned a w')
  /\ (forall status w', run (libc H) (aurora_panic (Some mbuf) (Some fbuf) line) w
                        <> Terminated (Exited status) w').
Proof.
  intros Hm Hf.
  assert (E : run (libc H) (aurora_panic (Some mbuf) (Some fbuf) line) w =
              Terminated (Signaled SIGABRT)
                (World (w_stdout w)
                   (w_stderr w ++ lit "Aurora panic at " ++ file ++ lit ":" ++ conv_d line
                              ++ lit ": " ++ msg ++ [LF])
                   (w_heap w) (w_atexit w) (w_hooks_run w))).
  { rewrite run_panic. simpl. rewrite Hm, Hf. reflexivity. }
  rewrite E. repeat split; intros; discriminate.
Qed.

(** Scenario E: [panic ("boom", "x.au", 42)], with an at-exit handler
    registered: the line is on standard error and the handler has not run. *)
Lemma panic_aborts_witness :
  c_string (lit "boom" ++ [NUL]) = Some (lit "boom")
  /\ c_string (lit "x.au" ++ [NUL]) = Some (lit "x.au")
  /\ run (libc common_host)
         (aurora_panic (Some (lit "boom" ++ [NUL])) (Some (lit "x.au" ++ [NUL])) 42)
         (World [] [] ∅ [7%nat] [])
     = Terminated (Signaled SIGABRT)
         (World [] (lit "Aurora panic at x.au:42: boom" ++ [LF]) ∅ [7%nat] []).
Proof.
  split; [reflexivity |]. split; [reflexivity |].
  refine (proj1 (@panic_aborts common_host (World [] [] ∅ [7%nat] [])
                   (lit "boom" ++ [NUL]) (lit "x.au" ++ [NUL])
                   (lit "boom") (lit "x.au") 42 _ _)); reflexivity.
Defined.

(** The orderly way out, for contrast: [exit] runs the registered handlers. *)
Example exit_runs_hooks :
  run (libc common_host) (call (Exit 0)) (World [] [] ∅ [7%nat] [])
  = Terminated (Exited 0) (World [] [] ∅ [] [7%nat]).
Proof. reflexivity. Qed.

(** The claim of C2 fails as stated: the source has no null check and no
    ["(null)"] text of its own, so on a host that gives a null [%s] argument
    no meaning a panic with a null message writes no diagnostic at all. *)
Lemma panic_null_counterexample :
  run (libc frugal_host) (aurora_panic None (Some (lit "x.au" ++ [NUL])) 42) world0
    = Undefined
  /\ ~ (exists w',
          run (libc frugal_host) (aurora_panic None (Some (lit "x.au" ++ [NUL])) 42) world0
            = Terminated (Signaled SIGABRT) w'
          /\ w_stderr w' = lit "Aurora panic at x.au:42: (null)" ++ [LF]).
Proof.
  split; [reflexivity |].
  intros (w' & E & _). vm_compute in E. discriminate.
Qed.

(** C2, as amended.  [aurora_panic] hands a null message or file to the
    host's [fprintf] unchecked.  Whatever the host: if its [printf] renders
    a null [%s] argument as a text [t] (["(null)"] on the common C
    libraries), the diagnostic carries [t] in the place of each null
    argument, the other argument and the line are formatted as usual, and
    the process ends on SIGABRT as for any other panic; if the host gives a
    null [%s] argument no meaning, the call has no defined behaviour. *)
Theorem panic_null_delegated (H : host) (w : world) (buf s : list byte) (line : Z) :
  c_string buf = Some s ->
  run (libc H) (aurora_panic None (Some buf) line) w =
    match h_null_text H with
    | Some t =>
        Terminated (Signaled SIGABRT)
          (World (w_stdout w)
                 (w_stderr w ++ lit "Aurora panic at " ++ s ++ lit ":" ++ conv_d line
                            ++ lit ": " ++ t ++ [LF])
                 (w_heap w) (w_atexit w) (w_hooks_run w))
    | None => Undefined
    end
  /\ run (libc H) (aurora_panic (Some buf) None line) w =
    match h_null_text H with
    | Some t =>
        Terminated (Signaled SIGABRT)
          (World (w_stdout w)
                 (w_stderr w ++ lit "Aurora panic at " ++ t ++ lit ":" ++ conv_d line
                            ++ lit ": " ++ s ++ [LF])
                 (w_heap w) (w_atexit w) (w_hooks_run w))
    | None => Undefined
    end
  /\ run (libc H) (aurora_panic None None line) w =
    match h_null_text H with
    | Some t =>
        Terminated (Signaled SIGABRT)
          (World (w_stdout w)
                 (w_stderr w ++ lit "Aurora panic at " ++ t ++ lit ":" ++ conv_d line
                            ++ lit ": " ++ t ++ [LF])
                 (w_heap w) (w_atexit w) (w_hooks_run w))
    | None => Undefined
    end.
Proof.
  intros Hs. rewrite !run_panic. unfold conv_s. rewrite Hs.
  destruct (h_null_text H) as [t |]; repeat split.
Qed.

(** On the common host the text is ["(null)"]. *)
Lemma panic_null_delegated_witness :
  c_string (lit "x.au" ++ [NUL]) = Some (lit "x.au")
  /\ run (libc common_host) (aurora_panic None (Some (lit "x.au" ++ [NUL])) 42) world0 =
       Terminated (Signaled SIGABRT)
         (World [] (lit "Aurora panic at x.au:42: (null)" ++ [LF]) ∅ [] []).
Proof.
  split; [reflexivity |].
  refine (proj1 (@panic_null_delegated common_host world0 (lit "x.au" ++ [NUL])
                   (lit "x.au") 42 _)); reflexivity.
Defined.

(** ** The heap *)

Lemma heap_top_bounds (hp : heap) (b : N) (blk : block) :
  hp !! b = Some blk -> (b + N.of_nat (length blk) <= heap_top hp)%N.
Proof.
  unfold heap_top. revert b blk.
  apply (map_fold_weak_ind
           (fun r (m : heap) => forall b blk, m !! b = Some blk ->
                                  (b + N.of_nat (length blk) <= r)%N)).
  - intros b blk Hb. rewrite lookup_empty in Hb. discriminate.
  - intros i x m r Hi IH b blk Hb.
    destruct (decide (i = b)) as [-> | Hne].
    + rewrite lookup_insert_eq in Hb. injection Hb as ->. lia.
    + rewrite lookup_insert_ne in Hb by done. specialize (IH b blk Hb). lia.
Qed.

Lemma bump_above_top (align : N) (hp : heap) :
  (0 < align)%N -> (heap_top hp < align * (heap_top hp / align + 1))%N.
Proof.
  intros Ha.
  pose proof (N.mod_upper_bound (heap_top hp) align ltac:(lia)) as Hm.
  pose proof (N.div_mod (heap_top hp) align ltac:(lia)) as Hd.
  nia.
Qed.

Lemma bump_host_ok (null_text : option (list byte)) (align limit : N) (z : bool) :
  (0 < align)%N -> host_ok (Host null_text align (bump_place align limit) z).
Proof.
  intros Ha. constructor; simpl; unfold bump_place.
  - exact Ha.
  - intros hp n a. case_decide; [| discriminate]. intros [= <-].
    pose proof (bump_above_top hp Ha). unfold NULL. lia.
  - intros hp n a. case_decide; [| discriminate]. intros [= <-].
    rewrite N.mul_comm. apply N.Div0.mod_mul.
  - intros hp n a. case_decide; [| discriminate]. intros [= <-].
    destruct (hp !! _) as [blk |] eqn:E; [| reflexivity].
    pose proof (heap_top_bounds _ _ E). pose proof (bump_above_top hp Ha). lia.
  - intros hp n a b blk. case_decide; [| discriminate]. intros [= <-] Hb.
    pose proof (heap_top_bounds _ _ Hb). pose proof (bump_above_top hp Ha). lia.
Qed.

Lemma common_host_ok : host_ok common_host.
Proof. apply bump_host_ok. reflexivity. Qed.

Lemma holds_load (p : voidptr) (bs : list byte) (hp : heap) :
  holds p bs hp -> load_bytes p 0 (length bs) hp = Some bs.
Proof.
  intros (blk & Hp & Ht). unfold load_bytes. rewrite Hp.
  assert (length bs <= length blk).
  { apply (f_equal length) in Ht. rewrite length_take, length_fmap in Ht. lia. }
  rewrite decide_True by (simpl; lia).
  rewrite drop_0, Ht. by apply mapM_fmap_Some.
Qed.

Lemma store_holds (p : voidptr) (bs : list byte) (hp : heap) (blk : block) :
  hp !! p = Some blk -> length bs <= length blk ->
  exists hp', store_bytes p 0 bs hp = Some hp' /\ holds p bs hp'
              /\ forall b, b <> p -> hp' !! b = hp !! b.
Proof.
  intros Hp Hle. unfold store_bytes. rewrite Hp.
  rewrite decide_True by (simpl; lia). eexists. split; [reflexivity |]. split.
  - eexists. split; [apply lookup_insert_eq |].
    simpl. rewrite take_app_le by (rewrite length_fmap; lia).
    apply take_ge. rewrite length_fmap. lia.
  - intros b Hb. by apply lookup_insert_ne.
Qed.

Lemma malloc_keeps (H : host) (n : N) (w w' : world) (a p : voidptr) (bs : list byte) :
  host_ok H -> holds p bs (w_heap w) ->
  host_malloc H n w = Returned a w' -> holds p bs (w_heap w').
Proof.
  intros Hok (blk & Hp & Ht). unfold host_malloc.
  destruct (h_place H (w_heap w) n) as [a' |] eqn:E; intros [= <- <-]; simpl.
  - exists blk. split; [| done].
    rewrite lookup_insert_ne; [done |].
    intros ->. apply (ok_fresh Hok) in E. congruence.
  - exists blk. done.
Qed.

Lemma do_op_keeps (H : host) (o : op) (w w' : world) (p : voidptr) (bs : list byte) :
  host_ok H -> targets p o = false -> holds p bs (w_heap w) ->
  do_op H o w = Some w' -> holds p bs (w_heap w').
Proof.
  intros Hok Ht Hh. destruct o as [q off bs' | n | q | q n | s | s]; simpl in Ht; unfold do_op.
  - apply N.eqb_neq in Ht. unfold store_bytes.
    destruct (w_heap w !! q) as [blk' |]; [| discriminate].
    case_decide; [| discriminate]. intros [= <-]. simpl.
    destruct Hh as (blk & Hp & Hb). exists blk. split; [| done].
    by rewrite lookup_insert_ne.
  - unfold aurora_alloc. rewrite run_call. simpl.
    destruct (host_malloc H n w) as [a w1 | |] eqn:E; simpl; [| discriminate ..].
    intros [= <-]. eapply malloc_keeps; eauto.
  - apply N.eqb_neq in Ht. unfold aurora_free. rewrite run_call. simpl.
    unfold host_free. destruct (N.eqb q NULL); simpl; [by intros [= <-] |].
    destruct (w_heap w !! q); simpl; [| discriminate]. intros [= <-]. simpl.
    destruct Hh as (blk & Hp & Hb). exists blk. split; [| done].
    by rewrite lookup_delete_ne.
  - apply N.eqb_neq in Ht. unfold aurora_realloc. rewrite run_call. simpl.
    unfold host_realloc. destruct (N.eqb q NULL).
    { destruct (host_malloc H n w) as [a w1 | |] eqn:E; simpl; [| discriminate ..].
      intros [= <-]. eapply malloc_keeps; eauto. }
    destruct (w_heap w !! q) as [old |]; simpl; [| discriminate].
    destruct Hh as (blk & Hp & Hb).
    assert (Hp' : delete q (w_heap w) !! p = Some blk) by (by rewrite lookup_delete_ne).
    destruct (N.eqb n 0 && h_realloc0_frees H); simpl.
    { intros [= <-]. simpl. by exists blk. }
    destruct (h_place H (delete q (w_heap w)) n) as [a |] eqn:E; simpl; intros [= <-]; simpl.
    + exists blk. split; [| done]. rewrite lookup_insert_ne; [done |].
      intros ->. apply (ok_fresh Hok) in E. congruence.
    + by exists blk.
  - unfold aurora_print. destruct s as [buf |]; simpl; [| by intros [= <-]].
    unfold host_fprintf. destruct (format _ _ _); simpl; [| discriminate].
    by intros [= <-].
  - unfold aurora_println. destruct s as [buf |]; simpl; [| by intros [= <-]].
    unfold host_fprintf. destruct (format _ _ _); simpl; [| discriminate].
    by intros [= <-].
Qed.

Lemma do_ops_keep (H : host) (os : list op) (w w' : world) (p : voidptr) (bs : list byte) :
  host_ok H -> forallb (fun o => negb (targets p o)) os = true ->
  holds p bs (w_heap w) -> do_ops H os w = Some w' -> holds p bs (w_heap w').
Proof.
  intros Hok. revert w. induction os as [| o os IH]; intros w Hall Hh; simpl in *.
  - by intros [= <-].
  - apply andb_prop in Hall as [Ho Hall]. apply negb_true_iff in Ho.
    destruct (do_op H o w) as [w1 |] eqn:E; [| discriminate].
    intros Hrun. apply (IH w1); [done | | done].
    eapply do_op_keeps; eauto.
Qed.

(** C5.  On a host whose allocator keeps the ISO C contract,
    [aurora_alloc n] returns, for every size [n].  Its result is the null
    pointer, with the process state unchanged, or a non-null, aligned
    pointer to a new live block of [n] bytes that overlaps no block that was
    live and leaves those blocks as they were.  Any [n] bytes can be stored
    in the new block, and reading them back yields the same bytes after any
    further steps of the program, as long as none of them frees,
    reallocates or overwrites that block. *)
Theorem alloc_block (H : host) (w : world) (n : N) :
  host_ok H ->
  exists p w',
    run (libc H) (aurora_alloc n) w = Returned p w'
    /\ ((p = NULL /\ w' = w)
        \/ (p <> NULL
            /\ (p mod h_align H = 0)%N
            /\ w_heap w !! p = None
            /\ (forall b blk, w_heap w !! b = Some blk ->
                  (p + n <= b \/ b + N.of_nat (length blk) <= p)%N)
            /\ (exists blk, w_heap w' !! p = Some blk /\ length blk = N.to_nat n)
            /\ (forall b, b <> p -> w_heap w' !! b = w_heap w !! b)
            /\ forall bs : list byte, length bs = N.to_nat n ->
                 exists hp1,
                   store_bytes p 0 bs (w_heap w') = Some hp1
                   /\ forall os w2,
                        forallb (fun o => negb (targets p o)) os = true ->
                        do_ops H os (set_heap hp1 w') = Some w2 ->
                        load_bytes p 0 (N.to_nat n) (w_heap w2) = Some bs)).
Proof.
  intros Hok. unfold aurora_alloc. rewrite run_call. simpl. unfold host_malloc.
  destruct (h_place H (w_heap w) n) as [a |] eqn:E.
  2: { exists NULL, w. split; [reflexivity |]. left. done. }
  eexists a, _. split; [reflexivity |]. right. simpl.
  split; [exact (ok_nonnull Hok _ _ E) |].
  split; [exact (ok_aligned Hok _ _ E) |].
  split; [exact (ok_fresh Hok _ _ E) |].
  split; [intros b blk Hb; exact (ok_disjoint Hok _ _ _ E Hb) |].
  split.
  { exists (fresh_block n). split; [apply lookup_insert_eq |].
    unfold fresh_block. apply length_replicate. }
  split; [intros b Hb; by apply lookup_insert_ne |].
  intros bs Hlen.
  destruct (@store_holds a bs (<[a := fresh_block n]> (w_heap w)) (fresh_block n))
    as (hp1 & Hst & Hh & _).
  { apply lookup_insert_eq. }
  { unfold fresh_block. rewrite length_replicate. lia. }
  exists hp1. split; [exact Hst |].
  intros os w2 Hall Hrun. rewrite <- Hlen. apply holds_load.
  eapply do_ops_keep; [exact Hok | exact Hall | | exact Hrun]. exact Hh.
Qed.

Lemma alloc_block_witness :
  host_ok common_host
  /\ exists p w', run (libc common_host) (aurora_alloc 16) world0 = Returned p w'.
Proof.
  split; [exact common_host_ok |].
  destruct (@alloc_block common_host world0 16 common_host_ok) as (p & w' & E & _).
  exists p, w'. exact E.
Defined.

(** Scenario C: allocate 16 bytes, write 0x00..0x0F, read them back, free. *)
Example scenario_C :
  exists p w1 w2 w3,
    run (libc common_host) (aurora_alloc 16) world0 = Returned p w1
    /\ p <> NULL
    /\ do_op common_host (OStore p 0 bytes_00_0F) w1 = Some w2
    /\ load_bytes p 0 16 (w_heap w2) = Some bytes_00_0F
    /\ run (libc common_host) (aurora_free p) w2 = Returned tt w3
    /\ w_heap w3 = ∅.
Proof.
  eexists 16%N, _, _, _.
  split; [reflexivity |]. split; [discriminate |].
  split; [reflexivity |]. split; [reflexivity |].
  split; [reflexivity |]. reflexivity.
Qed.

(** An allocation the arena cannot hold fails with a null result. *)
Example alloc_failure :
  run (libc common_host) (aurora_alloc 70000) world0 = Returned NULL world0.
Proof. reflexivity. Qed.

(** C6.  When [aurora_realloc] of a live block of [m] bytes to [n] bytes
    succeeds (returns a non-null pointer), the block at the returned pointer
    has [n] bytes and its first [min m n] bytes are those of the old block;
    so whatever could be read from that prefix before reads the same after. *)
Theorem realloc_preserves (H : host) (w w' : world) (p q : voidptr) (n : N) (old : block) :
  p <> NULL ->
  w_heap w !! p = Some old ->
  run (libc H) (aurora_realloc p n) w = Returned q w' ->
  q <> NULL ->
  exists new,
    w_heap w' !! q = Some new
    /\ length new = N.to_nat n
    /\ take (min (length old) (N.to_nat n)) new = take (min (length old) (N.to_nat n)) old
    /\ forall k bs, k <= min (length old) (N.to_nat n) ->
         load_bytes p 0 k (w_heap w) = Some bs ->
         load_bytes q 0 k (w_heap w') = Some bs.
Proof.
  intros Hp Hold. unfold aurora_realloc. rewrite run_call. simpl. unfold host_realloc.
  apply N.eqb_neq in Hp. rewrite Hp, Hold.
  destruct (N.eqb n 0 && h_realloc0_frees H).
  { intros [= <- <-] Hq. contradiction. }
  destruct (h_place H (delete p (w_heap w)) n) as [a |] eqn:E.
  2: { intros [= <- <-] Hq. contradiction. }
  intros [= <- <-] _. simpl.
  assert (Hlen : length (resize n old) = N.to_nat n).
  { unfold resize. rewrite length_app, length_take, length_replicate. lia. }
  assert (Hpre : take (min (length old) (N.to_nat n)) (resize n old)
                 = take (min (length old) (N.to_nat n)) old).
  { unfold resize. rewrite take_app_le by (rewrite length_take; lia).
    rewrite take_take. f_equal. lia. }
  exists (resize n old). split; [apply lookup_insert_eq |].
  split; [exact Hlen |]. split; [exact Hpre |].
  intros k bs Hk. unfold load_bytes. rewrite Hold, lookup_insert_eq, Hlen, !drop_0.
  rewrite (decide_True (P := 0 + k <= length old)) by lia.
  rewrite (decide_True (P := 0 + k <= N.to_nat n)) by lia.
  replace (take k (resize n old))
    with (take k (take (min (length old) (N.to_nat n)) (resize n old)))
    by (rewrite take_take; f_equal; lia).
  rewrite Hpre, take_take. replace (min k _) with k by lia. done.
Qed.

(** Scenario D: a 4-byte block holding ["test"] is reallocated to 8 bytes;
    the first 4 bytes still read ["test"], the other 4 are indeterminate. *)
Lemma realloc_preserves_witness :
  16%N <> NULL
  /\ w_heap world_test !! 16%N = Some (Some <$> lit "test")
  /\ run (libc common_host) (aurora_realloc 16 8) world_test
     = Returned 16%N (World [] [] {[ 16%N := (Some <$> lit "test") ++ replicate 4 None ]} [] [])
  /\ load_bytes 16 0 4 {[ 16%N := (Some <$> lit "test") ++ replicate 4 None ]}
     = Some (lit "test").
Proof.
  split; [discriminate |]. split; [reflexivity |]. split; [reflexivity |].
  destruct (@realloc_preserves common_host world_test
              (World [] [] {[ 16%N := (Some <$> lit "test") ++ replicate 4 None ]} [] [])
              16%N 16%N 8%N (Some <$> lit "test"))
    as (new & _ & _ & _ & Hload); [discriminate | reflexivity | reflexivity | discriminate |].
  apply (Hload 4 (lit "test")); [simpl; lia | reflexivity].
Defined.

Example scenario_D :
  exists p w1 w2 q w3,
    run (libc common_host) (aurora_alloc 4) world0 = Returned p w1
    /\ do_op common_host (OStore p 0 (lit "test")) w1 = Some w2
    /\ run (libc common_host) (aurora_realloc p 8) w2 = Returned q w3
    /\ q <> NULL
    /\ load_bytes q 0 4 (w_heap w3) = Some (lit "test")
    /\ load_bytes q 0 8 (w_heap w3) = None.
Proof.
  eexists 16%N, _, _, 16%N, _.
  split; [reflexivity |]. split; [reflexivity |]. split; [reflexivity |].
  split; [discriminate |]. split; reflexivity.
Qed.

(** C7.  Freeing the null pointer returns and leaves the process state as
    it was; reallocating the null pointer to [n] bytes is the allocation of
    [n] bytes: same result, same state. *)
Theorem null_pointer_sentinels (H : host) (w : world) (n : N) :
  run (libc H) (aurora_free NULL) w = Returned tt w
  /\ run (libc H) (aurora_realloc NULL n) w = run (libc H) (aurora_alloc n) w.
Proof.
  unfold aurora_free, aurora_realloc, aurora_alloc. rewrite !run_call.
  split; reflexivity.
Qed.

(** C8.  Under every host semantics, on every process state,
    [aurora_alloc n] is the host's [malloc n] and [aurora_realloc p n] is
    the host's [realloc p n]: same result, same effect, for every pointer
    and every size, zero included.  Each body is that one call and
    nothing else. *)
Theorem heap_pass_through (W : Type) (h : hostsem W) (w : W) (p : voidptr) (n : N) :
  run h (aurora_alloc n) w = h _ (Malloc n) w
  /\ run h (aurora_realloc p n) w = h _ (Realloc p n) w
  /\ run h (aurora_alloc 0) w = h _ (Malloc 0%N) w
  /\ run h (aurora_realloc p 0) w = h _ (Realloc p 0%N) w
  /\ aurora_alloc n = Call (Malloc n) Ret
  /\ aurora_realloc p n = Call (Realloc p n) Ret.
Proof.
  unfold aurora_alloc, aurora_realloc. rewrite !run_call. repeat split.
Qed.

(** Size zero on two hosts: one hands out a zero-sized block, the other
    returns null; the runtime passes on either answer. *)
Example alloc_zero_common :
  run (libc common_host) (aurora_alloc 0) world0
  = Returned 16%N (World [] [] {[ 16%N := [] ]} [] []).
Proof. reflexivity. Qed.

Example alloc_zero_frugal :
  run (libc frugal_host) (aurora_alloc 0) world0 = Returned NULL world0.
Proof. reflexivity. Qed.

Example realloc_zero_common :
  run (libc common_host) (aurora_realloc 16 0) world_test = Returned NULL world0.
Proof. reflexivity. Qed.

Example realloc_zero_frugal :
  run (libc frugal_host) (aurora_realloc 16 0) world_test = Returned NULL world_test.
Proof. reflexivity. Qed.

(** ** Effects are confined to their channel *)

Lemma untouched_refl (chs : list channel) (w : world) : untouched chs w w.
Proof. repeat split. Qed.

Lemma untouched_trans (chs : list channel) (w1 w2 w3 : world) :
  untouched chs w1 w2 -> untouched chs w2 w3 -> untouched chs w1 w3.
Proof.
  intros (A1 & B1 & C1 & D1) (A2 & B2 & C2 & D2).
  split; [| split; [| split]]; intros Hn.
  - by rewrite A2, A1.
  - by rewrite B2, B1.
  - by rewrite C2, C1.
  - destruct (D1 Hn) as [E1 F1], (D2 Hn) as [E2 F2]. split; congruence.
Qed.

Lemma libc_untouched (H : host) (X : Type) (c : hostcall X) (chs : list channel)
    (w w' : world) :
  In (channel_of c) chs ->
  final (libc H c w) = Some w' ->
  untouched chs w w' /\ (~ In ChProcess chs -> ends (libc H c w) = false).
Proof.
  intros Hin.
  destruct c as [fmt args | f fmt args | n | p | p n | | status]; simpl in *.
  - unfold host_fprintf. destruct (format _ _ _); simpl; [| discriminate].
    intros [= <-]. repeat split; simpl; tauto.
  - unfold host_fprintf. destruct (format _ _ _); simpl; [| discriminate].
    intros [= <-]. destruct f; repeat split; simpl; tauto.
  - unfold host_malloc. destruct (h_place _ _ _); simpl; intros [= <-];
      repeat split; simpl; tauto.
  - unfold host_free. destruct (N.eqb p NULL); simpl.
    { intros [= <-]. repeat split; simpl; tauto. }
    destruct (w_heap w !! p); simpl; [| discriminate].
    intros [= <-]. repeat split; simpl; tauto.
  - unfold host_realloc, host_malloc. destruct (N.eqb p NULL).
    { destruct (h_place _ _ _); simpl; intros [= <-]; repeat split; simpl; tauto. }
    destruct (w_heap w !! p); simpl; [| discriminate].
    destruct (N.eqb n 0 && h_realloc0_frees H); simpl.
    { intros [= <-]. repeat split; simpl; tauto. }
    destruct (h_place _ _ _); simpl; intros [= <-]; repeat split; simpl; tauto.
  - intros [= <-]. repeat split; simpl; tauto.
  - intros [= <-]. repeat split; simpl; tauto.
Qed.

Lemma confined_untouched (H : host) (A : Type) (p : prog A) (chs : list channel) :
  confined chs p ->
  forall w w', final (run (libc H) p w) = Some w' ->
    untouched chs w w' /\ (~ In ChProcess chs -> ends (run (libc H) p w) = false).
Proof.
  induction 1 as [a | X c k Hin Hk IH]; intros w w'; simpl.
  - intros [= <-]. split; [apply untouched_refl | done].
  - pose proof (@libc_untouched H X c chs w) as Hstep.
    destruct (libc H c w) as [x w1 | t w1 |] eqn:E; simpl in *.
    + intros Hf. destruct (Hstep w1 Hin eq_refl) as [U1 _].
      destruct (IH x w1 w' Hf) as [U2 T2].
      split; [eapply untouched_trans; eauto | exact T2].
    + intros [= <-]. exact (Hstep w1 Hin eq_refl).
    + discriminate.
Qed.

Lemma confined_bind (A B : Type) (chs : list channel) (p : prog A) (f : A -> prog B) :
  confined chs p -> (forall a, confined chs (f a)) -> confined chs (bind p f).
Proof.
  intros Hp Hf. induction Hp as [a | X c k Hin Hk IH]; simpl.
  - apply Hf.
  - constructor; [exact Hin | exact IH].
Qed.

Lemma confined_call1 (X : Type) (c : hostcall X) (chs : list channel) :
  In (channel_of c) chs -> confined chs (call c).
Proof. intros Hin. constructor; [exact Hin | intros x; constructor]. Qed.

Lemma println_confined (s : cstr) : confined [ChStdout] (aurora_println s).
Proof.
  destruct s; simpl; [| constructor].
  constructor; [simpl; tauto | intros x; constructor].
Qed.

Lemma print_confined (s : cstr) : confined [ChStdout] (aurora_print s).
Proof.
  destruct s; simpl; [| constructor].
  constructor; [simpl; tauto | intros x; constructor].
Qed.

Lemma alloc_confined (n : N) : confined [ChHeap] (aurora_alloc n).
Proof. apply confined_call1. simpl. tauto. Qed.

Lemma free_confined (p : voidptr) : confined [ChHeap] (aurora_free p).
Proof. apply confined_call1. simpl. tauto. Qed.

Lemma realloc_confined (p : voidptr) (n : N) : confined [ChHeap] (aurora_realloc p n).
Proof. apply confined_call1. simpl. tauto. Qed.

Lemma panic_confined (msg file : cstr) (line : Z) :
  confined [ChStderr; ChProcess] (aurora_panic msg file line).
Proof.
  unfold aurora_panic. apply confined_bind; [apply confined_call1; simpl; tauto |].
  intros _. apply confined_bind; [apply confined_call1; simpl; tauto |].
  intros _. constructor.
Qed.

(** C9.  The runtime keeps no state of its own: all a primitive does is
    make host calls on its own channel (standard output for the two output
    primitives, the heap for the three heap primitives, standard error and
    process termination for the panic).  Hence, on the reference host, a
    heap primitive writes no byte to either stream and does not end the
    process, an output primitive leaves standard error and the heap alone,
    and a panic leaves standard output and the heap alone.  A failed
    allocation or reallocation returns null and changes nothing at all. *)
Theorem runtime_stateless (H : host) (w : world) :
  ((forall s, confined [ChStdout] (aurora_println s))
   /\ (forall s, confined [ChStdout] (aurora_print s))
   /\ (forall n, confined [ChHeap] (aurora_alloc n))
   /\ (forall p, confined [ChHeap] (aurora_free p))
   /\ (forall p n, confined [ChHeap] (aurora_realloc p n))
   /\ (forall msg file line, confined [ChStderr; ChProcess] (aurora_panic msg file line)))
  /\ (forall n w', final (run (libc H) (aurora_alloc n) w) = Some w' ->
        w_stdout w' = w_stdout w /\ w_stderr w' = w_stderr w
        /\ ends (run (libc H) (aurora_alloc n) w) = false)
  /\ (forall p w', final (run (libc H) (aurora_free p) w) = Some w' ->
        w_stdout w' = w_stdout w /\ w_stderr w' = w_stderr w
        /\ ends (run (libc H) (aurora_free p) w) = false)
  /\ (forall p n w', final (run (libc H) (aurora_realloc p n) w) = Some w' ->
        w_stdout w' = w_stdout w /\ w_stderr w' = w_stderr w
        /\ ends (run (libc H) (aurora_realloc p n) w) = false)
  /\ (forall s w', final (run (libc H) (aurora_println s) w) = Some w' ->
        w_stderr w' = w_stderr w /\ w_heap w' = w_heap w)
  /\ (forall s w', final (run (libc H) (aurora_print s) w) = Some w' ->
        w_stderr w' = w_stderr w /\ w_heap w' = w_heap w)
  /\ (forall msg file line w',
        final (run (libc H) (aurora_panic msg file line) w) = Some w' ->
        w_stdout w' = w_stdout w /\ w_heap w' = w_heap w)
  /\ (forall n, h_place H (w_heap w) n = None ->
        run (libc H) (aurora_alloc n) w = Returned NULL w)
  /\ (forall p n old, p <> NULL -> w_heap w !! p = Some old -> n <> 0%N ->
        h_place H (delete p (w_heap w)) n = None ->
        run (libc H) (aurora_realloc p n) w = Returned NULL w).
Proof.
  split.
  { split; [exact println_confined |]. split; [exact print_confined |].
    split; [exact alloc_confined |]. split; [exact free_confined |].
    split; [exact realloc_confined | exact panic_confined]. }
  split.
  { intros n w' Hf.
    destruct (confined_untouched H (alloc_confined n) w Hf) as [(A & B & _) T].
    split; [apply A | split; [apply B | apply T]]; simpl; intuition discriminate. }
  split.
  { intros p w' Hf.
    destruct (confined_untouched H (free_confined p) w Hf) as [(A & B & _) T].
    split; [apply A | split; [apply B | apply T]]; simpl; intuition discriminate. }
  split.
  { intros p n w' Hf.
    destruct (confined_untouched H (realloc_confined p n) w Hf) as [(A & B & _) T].
    split; [apply A | split; [apply B | apply T]]; simpl; intuition discriminate. }
  split.
  { intros s w' Hf.
    destruct (confined_untouched H (println_confined s) w Hf) as [(_ & B & C & _) _].
    split; [apply B | apply C]; simpl; intuition discriminate. }
  split.
  { intros s w' Hf.
    destruct (confined_untouched H (print_confined s) w Hf) as [(_ & B & C & _) _].
    split; [apply B | apply C]; simpl; intuition discriminate. }
  split.
  { intros msg file line w' Hf.
    destruct (confined_untouched H (panic_confined msg file line) w Hf)
      as [(A & _ & C & _) _].
    split; [apply A | apply C]; simpl; intuition discriminate. }
  split.
  { intros n Hn. unfold aurora_alloc. rewrite run_call. simpl.
    unfold host_malloc. by rewrite Hn. }
  intros p n old Hp Hold Hn Hpl. unfold aurora_realloc. rewrite run_call. simpl.
  unfold host_realloc. apply N.eqb_neq in Hp, Hn. by rewrite Hp, Hold, Hn, Hpl.
Qed.

Lemma runtime_stateless_witness :
  final (run (libc common_host) (aurora_alloc 16) world_hi)
    = Some (World (lit "hi") (lit "err") {[ 16%N := replicate 16 None ]} [] [])
  /\ h_place common_host (w_heap world_hi) 70000 = None
  /\ w_stdout (World (lit "hi") (lit "err") {[ 16%N := replicate 16 None ]} [] [])
       = w_stdout world_hi
  /\ run (libc common_host) (aurora_alloc 70000) world_hi = Returned NULL world_hi.
Proof.
  split; [reflexivity |]. split; [reflexivity |].
  destruct (runtime_stateless common_host world_hi)
    as (_ & Halloc & _ & _ & _ & _ & _ & Hfail & _).
  split.
  - apply (Halloc 16%N). reflexivity.
  - apply Hfail. reflexivity.
Defined.

(** * Further properties of the runtime *)

(** ** Output: edge cases and composition *)

Lemma c_string_none (buf : list byte) : c_string buf = None <-> ~ In NUL buf.
Proof.
  induction buf as [| b buf IH]; simpl.
  - split; [intros _ [] | reflexivity].
  - destruct (Byte.eqb b NUL) eqn:E.
    + apply byte_dec_bl in E. split; [discriminate | intros Hn; exfalso; apply Hn; by left].
    + apply eqb_false in E. destruct (c_string buf) as [s |].
      * split; [discriminate |]. intros Hn. exfalso.
        assert (Hs : Some s = None) by (apply IH; intros Hin; apply Hn; by right).
        discriminate.
      * split; [| reflexivity]. intros _ [Hb | Hin]; [congruence |].
        by apply (proj1 IH).
Qed.

Lemma put_nil (f : stream) (w : world) : put f [] w = w.
Proof. destruct w, f; simpl; by rewrite app_nil_r. Qed.

Lemma put_put (f : stream) (a b : list byte) (w : world) :
  put f b (put f a w) = put f (a ++ b) w.
Proof. destruct f; simpl; by rewrite app_assoc. Qed.

(** X1.  An output primitive has defined behaviour on a non-null argument
    exactly when the buffer holds a terminator: on a buffer without a NUL
    byte both are undefined, on any other buffer both return. *)
Theorem print_defined_iff_terminated (H : host) (w : world) (buf : list byte) :
  (run (libc H) (aurora_print (Some buf)) w = Undefined <-> ~ In NUL buf)
  /\ (run (libc H) (aurora_println (Some buf)) w = Undefined <-> ~ In NUL buf)
  /\ (In NUL buf -> exists w1 w2,
        run (libc H) (aurora_print (Some buf)) w = Returned tt w1
        /\ run (libc H) (aurora_println (Some buf)) w = Returned tt w2).
Proof.
  rewrite run_print, run_println. rewrite <- c_string_none.
  destruct (c_string buf) as [s |] eqn:E.
  - split; [split; discriminate |]. split; [split; discriminate |].
    intros _. eauto.
  - split; [done |]. split; [done |].
    intros Hin. exfalso. by apply (proj1 (c_string_none buf)).
Qed.

Lemma print_defined_iff_terminated_witness :
  In NUL (lit "ok" ++ [NUL])
  /\ exists w1 w2,
       run (libc common_host) (aurora_print (Some (lit "ok" ++ [NUL]))) world0 = Returned tt w1
       /\ run (libc common_host) (aurora_println (Some (lit "ok" ++ [NUL]))) world0
          = Returned tt w2.
Proof.
  assert (Hin : In NUL (lit "ok" ++ [NUL])) by (simpl; tauto).
  split; [exact Hin |].
  exact (proj2 (proj2 (@print_defined_iff_terminated common_host world0
                         (lit "ok" ++ [NUL]))) Hin).
Defined.

(** X2.  The bytes an output primitive appends never include a NUL byte,
    and for [aurora_println] their last byte is 0x0A. *)
Theorem print_writes_no_nul (H : host) (w w' : world) (buf : list byte) :
  (run (libc H) (aurora_print (Some buf)) w = Returned tt w' ->
     exists out, w_stdout w' = w_stdout w ++ out /\ ~ In NUL out)
  /\ (run (libc H) (aurora_println (Some buf)) w = Returned tt w' ->
     exists out, w_stdout w' = w_stdout w ++ out ++ [LF] /\ ~ In NUL (out ++ [LF])).
Proof.
  rewrite run_print, run_println.
  destruct (c_string buf) as [s |] eqn:E; [| split; discriminate].
  destruct (c_string_inv _ E) as [Hs _].
  assert (Hn : ~ In NUL s).
  { intros Hin. rewrite Forall_forall in Hs. apply list_elem_of_In in Hin.
    by apply (Hs NUL Hin). }
  split; intros [= <-]; exists s; simpl; (split; [reflexivity |]).
  - exact Hn.
  - rewrite in_app_iff. intros [Hin | [Hc | []]]; [by apply Hn | discriminate].
Qed.

Lemma print_writes_no_nul_witness :
  run (libc common_host) (aurora_print (Some (lit "ok" ++ [NUL]))) world0
    = Returned tt (World (lit "ok") [] ∅ [] [])
  /\ exists out, lit "ok" = [] ++ out /\ ~ In NUL out.
Proof.
  split; [reflexivity |].
  exact (proj1 (@print_writes_no_nul common_host world0 (World (lit "ok") [] ∅ [] [])
                  (lit "ok" ++ [NUL])) eq_refl).
Defined.

(** X3.  The empty string: [aurora_print] of it changes nothing, exactly
    as for the null pointer, whereas [aurora_println] of it appends the one
    byte 0x0A, which the null pointer does not. *)
Theorem print_empty_string (H : host) (w : world) (rest : list byte) :
  run (libc H) (aurora_print (Some (NUL :: rest))) w
    = run (libc H) (aurora_print None) w
  /\ run (libc H) (aurora_println (Some (NUL :: rest))) w
    = Returned tt (World (w_stdout w ++ [LF]) (w_stderr w) (w_heap w)
                         (w_atexit w) (w_hooks_run w))
  /\ run (libc H) (aurora_println (Some (NUL :: rest))) w
    <> run (libc H) (aurora_println None) w.
Proof.
  rewrite !run_print, !run_println. cbv beta iota.
  change (c_string (NUL :: rest)) with (Some (@nil byte)). cbv beta iota.
  rewrite put_nil. simpl.
  split; [reflexivity |]. split; [reflexivity |].
  intros [= E]. apply (f_equal (fun v => length (w_stdout v))) in E.
  simpl in E. rewrite length_app in E. simpl in E. lia.
Qed.

(** X4.  [aurora_println s] is [aurora_print s] followed by
    [aurora_print "\n"], for every argument that is not null, valid string
    or not. *)
Theorem println_is_print_newline (H : host) (w : world) (buf : list byte) :
  run (libc H) (aurora_println (Some buf)) w
  = run (libc H) (aurora_print (Some buf) ;; aurora_print newline) w.
Proof.
  rewrite run_bind, run_println, run_print.
  destruct (c_string buf) as [s |]; [| reflexivity].
  rewrite run_print. simpl. by rewrite app_assoc.
Qed.

(** X5.  Printing two strings one after the other is printing their
    concatenation. *)
Theorem print_concat (H : host) (w : world) (b1 b2 s1 s2 : list byte) :
  c_string b1 = Some s1 ->
  c_string b2 = Some s2 ->
  run (libc H) (aurora_print (Some b1) ;; aurora_print (Some b2)) w
    = run (libc H) (aurora_print (Some (s1 ++ s2 ++ [NUL]))) w
  /\ run (libc H) (aurora_print (Some b1) ;; aurora_println (Some b2)) w
    = run (libc H) (aurora_println (Some (s1 ++ s2 ++ [NUL]))) w.
Proof.
  intros E1 E2.
  destruct (c_string_inv _ E1) as [F1 _], (c_string_inv _ E2) as [F2 _].
  assert (E : c_string (s1 ++ s2 ++ [NUL]) = Some (s1 ++ s2)).
  { rewrite app_assoc. apply c_string_app. by apply Forall_app. }
  split.
  - rewrite run_bind, run_print, E1. cbv beta iota.
    rewrite !run_print, E2, E. cbv beta iota. by rewrite put_put.
  - rewrite run_bind, run_print, E1. cbv beta iota.
    rewrite !run_println, E2, E. cbv beta iota. by rewrite put_put, app_assoc.
Qed.

Lemma print_concat_witness :
  c_string (lit "ab" ++ [NUL]) = Some (lit "ab")
  /\ c_string (lit "cd" ++ [NUL; x41]) = Some (lit "cd")
  /\ run (libc common_host)
         (aurora_print (Some (lit "ab" ++ [NUL])) ;; aurora_print (Some (lit "cd" ++ [NUL; x41])))
         world0
     = run (libc common_host) (aurora_print (Some (lit "ab" ++ lit "cd" ++ [NUL]))) world0.
Proof.
  split; [reflexivity |]. split; [reflexivity |].
  refine (proj1 (@print_concat common_host world0 (lit "ab" ++ [NUL])
                   (lit "cd" ++ [NUL; x41]) (lit "ab") (lit "cd") _ _)); reflexivity.
Defined.

(** ** Abnormal termination: further properties *)

Lemma to_int_proper (n : Z) :
  Z.to_int n <> Decimal.Pos Decimal.Nil /\ Z.to_int n <> Decimal.Neg Decimal.Nil.
Proof.
  destruct n as [| p | p]; simpl; split; try discriminate;
    intros [= E]; by apply (DecimalPos.Unsigned.to_uint_nonnil p).
Qed.

Lemma read_conv_d (n : Z) : read_d (conv_d n) = Some n.
Proof.
  unfold read_d, conv_d. rewrite string_of_list_byte_of_string.
  destruct (to_int_proper n) as [Hp Hn].
  rewrite (NilZero.isi _ Hp Hn). by rewrite DecimalZ.of_to.
Qed.

Lemma conv_d_inj (a b : Z) : conv_d a = conv_d b -> a = b.
Proof.
  intros E. apply (f_equal read_d) in E. rewrite !read_conv_d in E. congruence.
Qed.

Lemma app_middle_inj (x p1 f p2 a b tl : list byte) :
  x ++ p1 ++ f ++ p2 ++ a ++ tl = x ++ p1 ++ f ++ p2 ++ b ++ tl -> a = b.
Proof.
  intros E. do 4 apply app_inv_head in E. by apply app_inv_tail in E.
Qed.

(** X6.  [aurora_panic] never returns to its caller: whatever the host
    semantics, the process state and the arguments (null or unterminated
    strings included), no run of it ends in a return, and what the caller
    would do next has no bearing on the outcome. *)
Theorem panic_never_returns (W A : Type) (h : hostsem W) (w : W)
    (msg file : cstr) (line : Z) (k1 k2 : prog A) :
  (forall a w', run h (aurora_panic msg file line) w <> Returned a w')
  /\ run h (aurora_panic msg file line ;; k1) w
     = run h (aurora_panic msg file line ;; k2) w.
Proof.
  unfold aurora_panic. simpl.
  destruct (h Z (Fprintf Stderr fmt_panic [AStr file; AInt line; AStr msg]) w)
    as [x w1 | t w1 |]; [| split; [discriminate | reflexivity] ..].
  destruct (h Empty_set Abort w1) as [[] w2 | t w2 |];
    split; (discriminate || reflexivity).
Qed.

(** X7.  The line number can be read back from the diagnostic: its decimal
    text decodes to the line passed in, so two panics that differ in the
    line only leave different text on standard error. *)
Theorem panic_line_recoverable (H : host) (w : world) (mbuf fbuf msg file : list byte)
    (line1 line2 : Z) :
  c_string mbuf = Some msg ->
  c_string fbuf = Some file ->
  read_d (conv_d line1) = Some line1
  /\ (run (libc H) (aurora_panic (Some mbuf) (Some fbuf) line1) w
      = run (libc H) (aurora_panic (Some mbuf) (Some fbuf) line2) w
      -> line1 = line2).
Proof.
  intros Hm Hf. split; [apply read_conv_d |].
  rewrite !run_panic. unfold conv_s. rewrite Hm, Hf. unfold put.
  intros E. injection E as E.
  apply conv_d_inj.
  exact (@app_middle_inj (w_stderr w) (lit "Aurora panic at ") file (lit ":")
           (conv_d line1) (conv_d line2) (lit ": " ++ msg ++ [LF]) E).
Qed.

Lemma panic_line_recoverable_witness :
  c_string (lit "boom" ++ [NUL]) = Some (lit "boom")
  /\ c_string (lit "x.au" ++ [NUL]) = Some (lit "x.au")
  /\ read_d (conv_d (-42)) = Some (-42)%Z.
Proof.
  split; [reflexivity |]. split; [reflexivity |].
  refine (proj1 (@panic_line_recoverable common_host world0 (lit "boom" ++ [NUL])
                   (lit "x.au" ++ [NUL]) (lit "boom") (lit "x.au") (-42) 7 _ _));
    reflexivity.
Defined.

(** ** The heap: release, misuse and round trips *)

Lemma set_heap_id (w : world) : set_heap (w_heap w) w = w.
Proof. by destruct w. Qed.

(** X8.  Freeing a live block releases that block and nothing else: the
    other blocks and both streams are as before.  The pointer is dangling
    afterwards: reading or writing through it and freeing it a second time
    have no defined behaviour. *)
Theorem free_releases_block (H : host) (w : world) (p : voidptr) (blk : block) :
  p <> NULL ->
  w_heap w !! p = Some blk ->
  exists w',
    run (libc H) (aurora_free p) w = Returned tt w'
    /\ w_heap w' !! p = None
    /\ (forall b, b <> p -> w_heap w' !! b = w_heap w !! b)
    /\ w_stdout w' = w_stdout w /\ w_stderr w' = w_stderr w
    /\ (forall off n, load_bytes p off n (w_heap w') = None)
    /\ (forall off bs, store_bytes p off bs (w_heap w') = None)
    /\ run (libc H) (aurora_free p) w' = Undefined.
Proof.
  intros Hp Hblk. apply N.eqb_neq in Hp.
  exists (set_heap (delete p (w_heap w)) w).
  unfold aurora_free. rewrite !run_call. simpl. unfold host_free.
  rewrite Hp, Hblk. simpl. rewrite lookup_delete_eq.
  split; [reflexivity |]. split; [reflexivity |].
  split; [intros b Hb; by apply lookup_delete_ne |].
  split; [reflexivity |]. split; [reflexivity |].
  split; [intros off n; unfold load_bytes; by rewrite lookup_delete_eq |].
  split; [intros off bs; unfold store_bytes; by rewrite lookup_delete_eq |].
  reflexivity.
Qed.

Lemma free_releases_block_witness :
  16%N <> NULL
  /\ w_heap world_test !! 16%N = Some (Some <$> lit "test")
  /\ exists w', run (libc common_host) (aurora_free 16) world_test = Returned tt w'
                /\ w_heap w' !! 16%N = None.
Proof.
  split; [discriminate |]. split; [reflexivity |].
  destruct (@free_releases_block common_host world_test 16%N (Some <$> lit "test"))
    as (w' & E & Hgone & _); [discriminate | reflexivity |].
  exists w'. split; [exact E | exact Hgone].
Defined.

(** X9.  The runtime does not check pointers: [aurora_free] and
    [aurora_realloc] of a non-null pointer that is not the base of a live
    block (never allocated, already freed, or pointing inside a block) have
    no defined behaviour. *)
Theorem invalid_pointer_undefined (H : host) (w : world) (p : voidptr) (n : N) :
  p <> NULL ->
  w_heap w !! p = None ->
  run (libc H) (aurora_free p) w = Undefined
  /\ run (libc H) (aurora_realloc p n) w = Undefined.
Proof.
  intros Hp Hnone. apply N.eqb_neq in Hp.
  unfold aurora_free, aurora_realloc. rewrite !run_call. simpl.
  unfold host_free, host_realloc. by rewrite Hp, Hnone.
Qed.

Lemma invalid_pointer_undefined_witness :
  17%N <> NULL
  /\ w_heap world_test !! 17%N = None
  /\ run (libc common_host) (aurora_free 17) world_test = Undefined.
Proof.
  split; [discriminate |]. split; [reflexivity |].
  refine (proj1 (@invalid_pointer_undefined common_host world_test 17%N 0%N _ _));
    [discriminate | reflexivity].
Defined.

(** X10.  Allocating a block and freeing the pointer that came back is a
    round trip: the process state is exactly what it was, whether the
    allocation succeeded or failed. *)
Theorem alloc_free_roundtrip (H : host) (w : world) (n : N) :
  host_ok H ->
  run (libc H) (p <- aurora_alloc n ;; aurora_free p) w = Returned tt w.
Proof.
  intros Hok. rewrite run_bind. unfold aurora_alloc, aurora_free.
  rewrite run_call. simpl. unfold host_malloc.
  destruct (h_place H (w_heap w) n) as [a |] eqn:E.
  - unfold host_free.
    pose proof (ok_nonnull Hok _ _ E) as Ha. apply N.eqb_neq in Ha. rewrite Ha.
    simpl. rewrite lookup_insert_eq.
    rewrite (delete_insert_id _ _ _ (ok_fresh Hok _ _ E)).
    unfold set_heap. simpl. by destruct w.
  - reflexivity.
Qed.

Lemma alloc_free_roundtrip_witness :
  host_ok common_host
  /\ run (libc common_host) (p <- aurora_alloc 16 ;; aurora_free p) world_test
     = Returned tt world_test.
Proof.
  split; [exact common_host_ok |].
  exact (@alloc_free_roundtrip common_host world_test 16%N common_host_ok).
Defined.

(** X11.  A successful reallocation touches the reallocated block only:
    every other live block stays where it is with its contents, the new
    pointer is none of them, both streams are as before, and when the block
    has moved the old pointer is no longer live. *)
Theorem realloc_moves_one_block (H : host) (w w' : world) (p q : voidptr) (n : N)
    (old : block) :
  host_ok H ->
  p <> NULL ->
  w_heap w !! p = Some old ->
  run (libc H) (aurora_realloc p n) w = Returned q w' ->
  q <> NULL ->
  (forall b blk, b <> p -> w_heap w !! b = Some blk ->
     q <> b /\ w_heap w' !! b = Some blk)
  /\ (forall b, b <> p -> b <> q -> w_heap w' !! b = w_heap w !! b)
  /\ (q <> p -> w_heap w' !! p = None)
  /\ w_stdout w' = w_stdout w /\ w_stderr w' = w_stderr w.
Proof.
  intros Hok Hp Hold. unfold aurora_realloc. rewrite run_call. simpl.
  unfold host_realloc. apply N.eqb_neq in Hp. rewrite Hp, Hold.
  destruct (N.eqb n 0 && h_realloc0_frees H).
  { intros [= <- <-] Hq. contradiction. }
  destruct (h_place H (delete p (w_heap w)) n) as [a |] eqn:E.
  2: { intros [= <- <-] Hq. contradiction. }
  intros [= <- <-] _. simpl.
  pose proof (ok_fresh Hok _ _ E) as Hfresh.
  split.
  { intros b blk Hb Hblk.
    assert (Hne : a <> b).
    { intros ->. rewrite lookup_delete_ne in Hfresh by done. congruence. }
    split; [exact Hne |].
    by rewrite lookup_insert_ne, lookup_delete_ne. }
  split.
  { intros b Hb Hbq. by rewrite lookup_insert_ne, lookup_delete_ne. }
  split; [| done].
  intros Hap. rewrite lookup_insert_ne by done. apply lookup_delete_eq.
Qed.

Lemma realloc_moves_one_block_witness :
  host_ok common_host
  /\ 16%N <> NULL
  /\ w_heap world_test !! 16%N = Some (Some <$> lit "test")
  /\ run (libc common_host) (aurora_realloc 16 8) world_test
     = Returned 16%N (World [] [] {[ 16%N := (Some <$> lit "test") ++ replicate 4 None ]} [] [])
  /\ w_stdout (World [] [] {[ 16%N := (Some <$> lit "test") ++ replicate 4 None ]} [] [])
     = w_stdout world_test.
Proof.
  split; [exact common_host_ok |]. split; [discriminate |].
  split; [reflexivity |]. split; [reflexivity |].
  destruct (@realloc_moves_one_block common_host world_test
              (World [] [] {[ 16%N := (Some <$> lit "test") ++ replicate 4 None ]} [] [])
              16%N 16%N 8%N (Some <$> lit "test") common_host_ok)
    as (_ & _ & _ & Hout & _); [discriminate | reflexivity | reflexivity | discriminate |].
  exact Hout.
Defined.

(** ** Invariants over whole runs *)

Lemma heap_wf_empty (H : host) : heap_wf H ∅.
Proof.
  split.
  - intros b blk Hb. rewrite lookup_empty in Hb. discriminate.
  - intros b1 b2 blk1 blk2 _ Hb. rewrite lookup_empty in Hb. discriminate.
Qed.

Lemma heap_wf_delete (H : host) (hp : heap) (p : voidptr) :
  heap_wf H hp -> heap_wf H (delete p hp).
Proof.
  intros [Hbase Hdisj]. split.
  - intros b blk Hb. apply lookup_delete_Some in Hb as [_ Hb]. eauto.
  - intros b1 b2 blk1 blk2 Hne Hb1 Hb2.
    apply lookup_delete_Some in Hb1 as [_ Hb1].
    apply lookup_delete_Some in Hb2 as [_ Hb2]. eauto.
Qed.

Lemma heap_wf_insert (H : host) (hp : heap) (a : voidptr) (new : block) :
  heap_wf H hp ->
  a <> NULL -> (a mod h_align H = 0)%N ->
  (forall b blk, b <> a -> hp !! b = Some blk ->
     (a + N.of_nat (length new) <= b \/ b + N.of_nat (length blk) <= a)%N) ->
  heap_wf H (<[a := new]> hp).
Proof.
  intros [Hbase Hdisj] Ha Hal Hnew. split.
  - intros b blk Hb. apply lookup_insert_Some in Hb as [[<- _] | [_ Hb]]; eauto.
  - intros b1 b2 blk1 blk2 Hne Hb1 Hb2.
    apply lookup_insert_Some in Hb1 as [[<- <-] | [Hn1 Hb1]];
      apply lookup_insert_Some in Hb2 as [[<- <-] | [Hn2 Hb2]].
    + contradiction.
    + apply Hnew; [congruence | done].
    + destruct (Hnew b1 blk1) as [Hl | Hr]; [congruence | done | lia | lia].
    + eauto.
Qed.

Lemma malloc_keeps_wf (H : host) (n : N) (w w' : world) (a : voidptr) :
  host_ok H -> heap_wf H (w_heap w) ->
  host_malloc H n w = Returned a w' -> heap_wf H (w_heap w').
Proof.
  intros Hok Hwf. unfold host_malloc.
  destruct (h_place H (w_heap w) n) as [a' |] eqn:E; intros [= <- <-]; simpl; [| done].
  apply heap_wf_insert; [done | exact (ok_nonnull Hok _ _ E) | exact (ok_aligned Hok _ _ E) |].
  intros b blk _ Hb. unfold fresh_block. rewrite length_replicate, N2Nat.id.
  exact (ok_disjoint Hok _ _ _ E Hb).
Qed.

Lemma do_op_keeps_wf (H : host) (o : op) (w w' : world) :
  host_ok H -> heap_wf H (w_heap w) -> do_op H o w = Some w' -> heap_wf H (w_heap w').
Proof.
  intros Hok Hwf. destruct o as [q off bs | n | q | q n | s | s]; unfold do_op.
  - unfold store_bytes. destruct (w_heap w !! q) as [blk |] eqn:Eq; [| discriminate].
    case_decide as Hle; [| discriminate]. intros [= <-]. simpl.
    destruct Hwf as [Hbase Hdisj]. destruct (Hbase q blk Eq) as [Hq Hal].
    apply heap_wf_insert; [by split | done | done |].
    intros b blk' Hb Hblk'.
    rewrite !length_app, length_take, length_fmap, length_drop.
    replace (off `min` length blk + (length bs + (length blk - (off + length bs))))
      with (length blk) by lia.
    destruct (Hdisj q b blk blk') as [Hl | Hr]; [congruence | done | done | by left | by right].
  - unfold aurora_alloc. rewrite run_call. simpl.
    destruct (host_malloc H n w) as [a w1 | |] eqn:E; simpl; [| discriminate ..].
    intros [= <-]. eapply malloc_keeps_wf; eauto.
  - unfold aurora_free. rewrite run_call. simpl.
    unfold host_free. destruct (N.eqb q NULL); simpl; [by intros [= <-] |].
    destruct (w_heap w !! q); simpl; [| discriminate]. intros [= <-]. simpl.
    by apply heap_wf_delete.
  - unfold aurora_realloc. rewrite run_call. simpl.
    unfold host_realloc. destruct (N.eqb q NULL).
    { destruct (host_malloc H n w) as [a w1 | |] eqn:E; simpl; [| discriminate ..].
      intros [= <-]. eapply malloc_keeps_wf; eauto. }
    destruct (w_heap w !! q) as [old |]; simpl; [| discriminate].
    destruct (N.eqb n 0 && h_realloc0_frees H); simpl.
    { intros [= <-]. simpl. by apply heap_wf_delete. }
    destruct (h_place H (delete q (w_heap w)) n) as [a |] eqn:E; simpl;
      intros [= <-]; simpl; [| done].
    apply heap_wf_insert;
      [by apply heap_wf_delete | exact (ok_nonnull Hok _ _ E)
       | exact (ok_aligned Hok _ _ E) |].
    intros b blk _ Hb.
    assert (Hlen : length (resize n old) = N.to_nat n).
    { unfold resize. rewrite length_app, length_take, length_replicate. lia. }
    rewrite Hlen, N2Nat.id. exact (ok_disjoint Hok _ _ _ E Hb).
  - rewrite run_print. destruct s as [buf |]; [| by intros [= <-]].
    destruct (c_string buf); simpl; [| discriminate]. by intros [= <-].
  - rewrite run_println. destruct s as [buf |]; [| by intros [= <-]].
    destruct (c_string buf); simpl; [| discriminate]. by intros [= <-].
Qed.

(** X13.  The heap stays well formed.  On a host whose allocator keeps its
    contract, after any sequence of runtime calls and stores by the program
    that has defined behaviour, no live block has a null or misaligned base
    and no two live blocks overlap; the heap of a fresh process is well
    formed. *)
Theorem heap_stays_well_formed (H : host) (os : list op) (w w' : world) :
  host_ok H ->
  heap_wf H (w_heap w) ->
  do_ops H os w = Some w' ->
  heap_wf H (w_heap w') /\ heap_wf H (w_heap world0).
Proof.
  intros Hok Hwf Hrun. split; [| apply heap_wf_empty].
  revert w Hwf Hrun. induction os as [| o os IH]; intros w Hwf; simpl.
  - by intros [= <-].
  - destruct (do_op H o w) as [w1 |] eqn:E; [| discriminate].
    intros Hrun. apply (IH w1); [| done].
    eapply do_op_keeps_wf; eauto.
Qed.

Lemma heap_stays_well_formed_witness :
  host_ok common_host
  /\ heap_wf common_host (w_heap world0)
  /\ do_ops common_host [OAlloc 4; OStore 16 0 (lit "test"); OAlloc 8; ORealloc 16 40; OFree 32]
            world0
     = Some (World [] [] {[ 48%N := (Some <$> lit "test") ++ replicate 36 None ]} [] [])
  /\ heap_wf common_host {[ 48%N := (Some <$> lit "test") ++ replicate 36 None ]}.
Proof.
  split; [exact common_host_ok |]. split; [apply heap_wf_empty |].
  split; [reflexivity |].
  refine (proj1 (@heap_stays_well_formed common_host
                   [OAlloc 4; OStore 16 0 (lit "test"); OAlloc 8; ORealloc 16 40; OFree 32]
                   world0
                   (World [] [] {[ 48%N := (Some <$> lit "test") ++ replicate 36 None ]} [] [])
                   common_host_ok _ _)); [apply heap_wf_empty | reflexivity].
Defined.

Lemma do_op_output (H : host) (o : op) (w w' : world) :
  do_op H o w = Some w' ->
  w_stdout w' = w_stdout w ++ op_output o
  /\ w_stderr w' = w_stderr w
  /\ w_atexit w' = w_atexit w /\ w_hooks_run w' = w_hooks_run w.
Proof.
  destruct o as [q off bs | n | q | q n | s | s]; unfold do_op, op_output.
  - destruct (store_bytes q off bs (w_heap w)); [| discriminate].
    intros [= <-]. simpl. by rewrite app_nil_r.
  - unfold aurora_alloc. rewrite run_call. simpl. unfold host_malloc.
    destruct (h_place _ _ _); simpl; intros [= <-]; simpl; by rewrite app_nil_r.
  - unfold aurora_free. rewrite run_call. simpl. unfold host_free.
    destruct (N.eqb q NULL); simpl; [intros [= <-]; by rewrite app_nil_r |].
    destruct (w_heap w !! q); simpl; [| discriminate].
    intros [= <-]; simpl; by rewrite app_nil_r.
  - unfold aurora_realloc. rewrite run_call. simpl. unfold host_realloc, host_malloc.
    destruct (N.eqb q NULL).
    { destruct (h_place _ _ _); simpl; intros [= <-]; simpl; by rewrite app_nil_r. }
    destruct (w_heap w !! q); simpl; [| discriminate].
    destruct (N.eqb n 0 && h_realloc0_frees H); simpl.
    { intros [= <-]; simpl; by rewrite app_nil_r. }
    destruct (h_place _ _ _); simpl; intros [= <-]; simpl; by rewrite app_nil_r.
  - rewrite run_print. destruct s as [buf |]; [| intros [= <-]; by rewrite app_nil_r].
    destruct (c_string buf); simpl; [| discriminate]. by intros [= <-].
  - rewrite run_println. destruct s as [buf |]; [| intros [= <-]; by rewrite app_nil_r].
    destruct (c_string buf); simpl; [| discriminate]. by intros [= <-].
Qed.

(** X14.  Standard output only grows, and by what was printed: after any
    sequence of runtime calls and stores with defined behaviour, standard
    output is what it was followed by the strings printed, in order, each
    [aurora_println] adding its 0x0A; heap calls, stores and null arguments
    add nothing, and standard error is unchanged. *)
Theorem output_accumulates (H : host) (os : list op) (w w' : world) :
  do_ops H os w = Some w' ->
  w_stdout w' = w_stdout w ++ ops_output os
  /\ w_stderr w' = w_stderr w
  /\ w_atexit w' = w_atexit w /\ w_hooks_run w' = w_hooks_run w.
Proof.
  revert w. induction os as [| o os IH]; intros w; simpl.
  - intros [= <-]. unfold ops_output. simpl. by rewrite app_nil_r.
  - destruct (do_op H o w) as [w1 |] eqn:E; [| discriminate].
    intros Hrun. destruct (do_op_output _ _ _ E) as (A1 & B1 & C1 & D1).
    destruct (IH w1 Hrun) as (A2 & B2 & C2 & D2).
    unfold ops_output in *. simpl. rewrite A2, A1, B2, B1, C2, C1, D2, D1.
    by rewrite app_assoc.
Qed.

Lemma output_accumulates_witness :
  do_ops common_host
         [OPrint (Some (lit "ab" ++ [NUL])); OAlloc 4; OPrintln None;
          OPrintln (Some (lit "cd" ++ [NUL; x41]))]
         world_hi
    = Some (World (lit "hiabcd" ++ [LF]) (lit "err") {[ 16%N := replicate 4 None ]} [] [])
  /\ lit "hiabcd" ++ [LF]
     = lit "hi" ++ ops_output [OPrint (Some (lit "ab" ++ [NUL])); OAlloc 4; OPrintln None;
                               OPrintln (Some (lit "cd" ++ [NUL; x41]))].
Proof.
  split; [reflexivity |].
  refine (proj1 (@output_accumulates common_host
                   [OPrint (Some (lit "ab" ++ [NUL])); OAlloc 4; OPrintln None;
                    OPrintln (Some (lit "cd" ++ [NUL; x41]))]
                   world_hi
                   (World (lit "hiabcd" ++ [LF]) (lit "err") {[ 16%N := replicate 4 None ]} [] [])
                   _)); reflexivity.
Defined.
